(** * The FastAPI project template of kandil-code

    The repository ships the same starter service twice:

    - variant 1: [kandil_code/templates/python/fastapi/app/main.py]
    - variant 2: [templates/python/fastapi/app/main.py], which adds the
      [/healthz] and [/readyz] probes.

    Each file declares one model class ([Item]) and registers plain
    functions as handlers on a [FastAPI] application object.  This
    development embeds both files, module [V1] and module [V2], and
    proves what the service answers.

    What is embedded from the files: the handler bodies, the [Item]
    class (its fields, which are required, and their defaults), the
    handler signatures (parameter names, annotations, defaults) and the
    route table built by the decorators, in registration order.

    What is not in the files: the web framework and the validation
    library.  Their part is kept as small as the decorators and
    annotations force it to be.  Whatever differs between releases of
    those libraries (what [int] makes of a path segment, what [str] makes
    of a JSON value that is not a well-formed string, what a model makes
    of a body that is not an object) is a field of the class
    [Validators], and the theorems hold for all of its instances; the
    instances defined below serve as concrete inputs.

    Scope of the routing: the route tables hold the decorated handlers,
    and a request is matched against them by its method and its exact
    path.  What the application object and its router add on their own
    is not represented: the documentation routes ([/openapi.json],
    [/docs], [/docs/oauth2-redirect], [/redoc]), the redirect to a path
    with its trailing slash added or removed, the answer 405 for a
    registered path under another method, and the acceptance of a
    registered path followed by a line feed.  The answer [NoRoute]
    therefore means no more than that no decorated handler runs, and the
    statements about several routes at once name the requests they
    cover.

    Floating point: [time.time()] returns a double.  Clock readings are
    binary64 values and the subtraction and the multiplication of
    [readyz] are the IEEE 754 operations, rounding to nearest even, as
    the Standard Library specifies them.  Python integers are unbounded
    and are modelled by [Z]. *)

From Stdlib Require Import Ascii ZArith SpecFloat.
From stdpp Require Import gmap strings list fin_maps pretty.

(** ** JSON values

    Request bodies after decoding and response bodies before encoding.
    An object is a dictionary, as [json.loads] builds it and as a Python
    [dict] literal is.  Numbers are restricted to integers: the service
    never produces another kind. *)

#[warnings="-register-all"] Inductive json : Type :=
  | JNull
  | JBool (b : bool)
  | JInt (z : Z)
  | JStr (s : string)
  | JArr (items : list json)
  | JObj (fields : gmap string json).

(** A Python value of type [str] or [None], as it is encoded in a
    response. *)
Definition str_or_null (o : option string) : json :=
  match o with
  | Some s => JStr s
  | None => JNull
  end.

(** Reading a key of a JSON object; [None] on anything else. *)
Definition member (k : string) (v : json) : option json :=
  match v with
  | JObj fields => fields !! k
  | _ => None
  end.

(** ** Text

    A string stands for a Python [str] through its UTF-8 bytes.  A
    [str] may hold a surrogate code point (the JSON text ["\ud800"]
    decodes to one), which UTF-8 cannot encode; such a code point is
    written here as the three bytes [ED A0..BF 80..BF] that it would
    take.  [utf8_encodable s] says that [s.encode("utf-8")] succeeds. *)

Definition surrogate_start (c c' : ascii) : bool :=
  Nat.eqb (nat_of_ascii c) 237 && Nat.leb 160 (nat_of_ascii c').

Fixpoint utf8_encodable (s : string) : bool :=
  match s with
  | EmptyString => true
  | String c rest =>
      match rest with
      | EmptyString => true
      | String c' _ => negb (surrogate_start c c') && utf8_encodable rest
      end
  end.

(** A JSON value that is a string without surrogates. *)
Definition well_formed_string (v : json) : option string :=
  match v with
  | JStr s => if utf8_encodable s then Some s else None
  | _ => None
  end.

(** ** Doubles *)

Definition prec64 : Z := 53.
Definition emax64 : Z := 1024.

Definition float_sub : spec_float -> spec_float -> spec_float :=
  SFsub prec64 emax64.

Definition float_mul : spec_float -> spec_float -> spec_float :=
  SFmul prec64 emax64.

(** The double nearest to an integer; exact up to [2 ^ 53]. *)
Definition float_of_Z (z : Z) : spec_float :=
  binary_normalize prec64 emax64 z 0 false.

(** Python's [int(x)] on a float: the integer part, toward zero.  [None]
    stands for the exception that [int] raises on an infinity or a NaN. *)
Definition int_of_float (x : spec_float) : option Z :=
  match x with
  | S754_zero _ => Some 0%Z
  | S754_finite s m e =>
      Some (cond_Zopp s (match e with
                         | Zneg k => Z.shiftr (Zpos m) (Zpos k)
                         | _ => Z.shiftl (Zpos m) e
                         end))
  | S754_infinity _ | S754_nan => None
  end.

Definition is_finite (x : spec_float) : bool :=
  match x with
  | S754_zero _ | S754_finite _ _ _ => true
  | S754_infinity _ | S754_nan => false
  end.

(** [magnitude_below k x]: [x] is zero, or is finite with a mantissa of
    [d] binary digits and an exponent [e] such that [d + e <= k]; then
    [|x| < 2 ^ k]. *)
Definition magnitude_below (k : Z) (x : spec_float) : bool :=
  match x with
  | S754_zero _ => true
  | S754_finite _ m e => (Zpos (digits2_pos m) + e <=? k)%Z
  | S754_infinity _ | S754_nan => false
  end.

(** ** The wall clock

    [time.time()] is the only effect in either file.  The world is the
    sequence of values the successive calls return, with the number of
    calls made so far.  Nothing is assumed about the sequence: the wall
    clock may jump, also backwards. *)

Record World : Type := {
  readings : nat -> spec_float;
  reads : nat
}.

Definition time_time (w : World) : spec_float * World :=
  (readings w (reads w),
   {| readings := readings w; reads := S (reads w) |}).

(** ** Requests and responses *)

Inductive Method : Type := GET | POST | OtherMethod.

#[global] Instance Method_eq_dec : EqDecision Method.
Proof. solve_decision. Defined.

(** The body of a request whose content type is JSON or is not given, as
    the framework reads it before validation: no bytes at all; bytes
    that [json.loads] cannot decode as text; text with a JSON syntax
    error at offset [pos]; or a decoded JSON value. *)
Inductive Payload : Type :=
  | NoBody
  | Unreadable
  | InvalidJson (pos : nat)
  | Decoded (v : json).

Record Request : Type := {
  method : Method;
  path : string;
  query : gmap string string;
  body : Payload
}.

(** [Ok] is status 200 with the handler's return value.
    [RequestValidationError] is the framework's own 422 answer, raised
    while the arguments of the handler are being built; of each error it
    keeps the location only, not the type, the message and the input
    that the answer also shows.  [JsonDecodeError] is the 422 answer to
    a JSON syntax error, whose location is the body and the offset.
    [BadRequest] is the 400 answer to a body that cannot be read.
    [InternalServerError] is the 500 answer to an exception raised by
    the handler or while its return value is encoded.  [NoRoute]: no
    decorated handler is registered for the method and the path. *)
Inductive Response : Type :=
  | Ok (content : json)
  | RequestValidationError (locs : list (list string))
  | JsonDecodeError (pos : nat)
  | BadRequest
  | InternalServerError
  | NoRoute.
(** ** Routing, as the decorators request it *)

(** [p.split("/")]. *)
Fixpoint segments (p : string) : list string :=
  match p with
  | EmptyString => [EmptyString]
  | String c rest =>
      if Ascii.eqb c "/"%char then EmptyString :: segments rest
      else match segments rest with
           | s :: ss => String c s :: ss
           | [] => [String c EmptyString]
           end
  end.

(** ["/".join(l)]. *)
Fixpoint join_segments (l : list string) : string :=
  match l with
  | [] => EmptyString
  | [s] => s
  | s :: rest => s +:+ String "/"%char (join_segments rest)
  end.

(** Whether a piece of a path contains the separator. *)
Fixpoint has_slash (s : string) : bool :=
  match s with
  | EmptyString => false
  | String c rest => Ascii.eqb c "/"%char || has_slash rest
  end.

Fixpoint until_brace (s : string) : option string :=
  match s with
  | EmptyString => None
  | String c EmptyString =>
      if Ascii.eqb c "}"%char then Some EmptyString else None
  | String c rest => String c <$> until_brace rest
  end.

(** The name [x] of a path segment written [{x}]. *)
Definition param_name (seg : string) : option string :=
  match seg with
  | String "{"%char rest => until_brace rest
  | _ => None
  end.

(** A path parameter matches one non-empty segment; any other segment of
    the pattern matches itself only.  The router's own matching also
    accepts a line feed after the last segment of a pattern; such paths
    are treated here as not matching. *)
Fixpoint match_path (pat segs : list string) : option (gmap string string) :=
  match pat, segs with
  | [], [] => Some ∅
  | p :: pat', s :: segs' =>
      match param_name p with
      | Some x =>
          if decide (s = EmptyString) then None
          else <[x := s]> <$> match_path pat' segs'
      | None =>
          if decide (p = s) then match_path pat' segs' else None
      end
  | _, _ => None
  end.

(** A registered handler, with the construction of its arguments. *)
Definition Endpoint : Type :=
  gmap string string -> Request -> World -> Response * World.

Record Route : Type := {
  route_method : Method;
  route_path : string;
  endpoint : Endpoint
}.

Definition route_matches (r : Route) (req : Request)
  : option (gmap string string) :=
  if decide (route_method r = method req)
  then match_path (segments (route_path r)) (segments (path req))
  else None.

(** The first registered route that matches serves the request.  Where
    none matches, the answer is [NoRoute], also where the router would
    answer 405 (the path is registered under another method) or redirect
    (the path is registered with its trailing slash added or removed). *)
Fixpoint dispatch (routes : list Route) (req : Request) (w : World)
  : Response * World :=
  match routes with
  | [] => (NoRoute, w)
  | r :: rest =>
      match route_matches r req with
      | Some params => endpoint r params req w
      | None => dispatch rest req w
      end
  end.

(** Requests served one after the other. *)
Fixpoint serve (app : Request -> World -> Response * World)
  (reqs : list Request) (w : World) : list Response * World :=
  match reqs with
  | [] => ([], w)
  | req :: rest =>
      let '(resp, w1) := app req w in
      let '(resps, w2) := serve app rest w1 in
      (resp :: resps, w2)
  end.

(** ** What the libraries decide

    [int_of_path] is the coercion behind the annotation [item_id: int].
    The other three are consulted only where the input has not the JSON
    type the annotation names: a body that is not an object, a [name]
    that is not a well-formed string, a [description] that is present
    and not a well-formed string.  A well-formed string given to [str]
    is kept as it is, and an object given to a model is read field by
    field: both are written out in the modules below. *)

Class Validators : Type := {
  int_of_path : string -> option Z;
  dict_of_nonobject : json -> option (gmap string json);
  str_of_nonstring : json -> option string;
  optional_str_of_nonstring : json -> option (option string)
}.

(** ** Variant 1: [kandil_code/templates/python/fastapi/app/main.py] *)

Module V1.

(** [class Item(BaseModel)]: [name: str] has no default, so it is
    required; [description: str = None] defaults to [None]. *)
Record Item : Type := {
  name : string;
  description : option string
}.

(** [def read_root()] *)
Definition read_root (_ : unit) : json :=
  JObj {[ "Hello" := JStr "World" ]}.

(** [def read_item(item_id: int, q: str = None)] *)
Definition read_item (item_id : Z) (q : option string) : json :=
  JObj {[ "item_id" := JInt item_id; "q" := str_or_null q ]}.

(** [def create_item(item: Item)] *)
Definition create_item (item : Item) : Item := item.

Section App.
Context `{Validators}.

Definition validate_name (fields : gmap string json)
  : list (list string) + string :=
  match fields !! "name" with
  | None => inl [["body"; "name"]]
  | Some v =>
      match well_formed_string v with
      | Some s => inr s
      | None =>
          match str_of_nonstring v with
          | Some s => inr s
          | None => inl [["body"; "name"]]
          end
      end
  end.

Definition validate_description (fields : gmap string json)
  : list (list string) + option string :=
  match fields !! "description" with
  | None => inr None
  | Some v =>
      match well_formed_string v with
      | Some s => inr (Some s)
      | None =>
          match optional_str_of_nonstring v with
          | Some d => inr d
          | None => inl [["body"; "description"]]
          end
      end
  end.

(** Building an [Item] from a decoded body.  The errors of all fields are
    collected; fields the class does not declare are ignored. *)
Definition Item_of_json (v : json) : list (list string) + Item :=
  match (match v with JObj fields => Some fields | _ => dict_of_nonobject v end) with
  | None => inl [["body"]]
  | Some fields =>
      match validate_name fields, validate_description fields with
      | inr n, inr d => inr {| name := n; description := d |}
      | inl e1, inl e2 => inl (e1 ++ e2)
      | inl e, inr _ => inl e
      | inr _, inl e => inl e
      end
  end.

(** An [Item] as a response body: its declared fields, in a dictionary. *)
Definition Item_to_json (item : Item) : json :=
  JObj {[ "name" := JStr (name item);
          "description" := str_or_null (description item) ]}.

(** The answer that carries an [Item]: the body is encoded as UTF-8,
    which fails on a surrogate. *)
Definition Item_response (item : Item) : Response :=
  if utf8_encodable (name item)
     && match description item with
        | Some d => utf8_encodable d
        | None => true
        end
  then Ok (Item_to_json item)
  else InternalServerError.

(** [@app.get("/")] *)
Definition get_root : Endpoint :=
  fun _ _ w => (Ok (read_root tt), w).

(** [@app.get("/items/{item_id}")]: [item_id] is the path parameter of
    that name, coerced to [int]; [q] is the query parameter of that name,
    [None] when the query has none. *)
Definition get_item : Endpoint :=
  fun params req w =>
    match params !! "item_id" ≫= int_of_path with
    | Some item_id => (Ok (read_item item_id (query req !! "q")), w)
    | None => (RequestValidationError [["path"; "item_id"]], w)
    end.

(** [@app.post("/items/")]: [item] is the body, validated as an [Item].
    The framework takes a body that is empty or is the JSON [null] as
    no body at all, before any validation. *)
Definition post_item : Endpoint :=
  fun _ req w =>
    match body req with
    | NoBody | Decoded JNull => (RequestValidationError [["body"]], w)
    | Unreadable => (BadRequest, w)
    | InvalidJson pos => (JsonDecodeError pos, w)
    | Decoded v =>
        match Item_of_json v with
        | inr item => (Item_response (create_item item), w)
        | inl locs => (RequestValidationError locs, w)
        end
    end.

Definition routes : list Route :=
  [ {| route_method := GET; route_path := "/"; endpoint := get_root |};
    {| route_method := GET; route_path := "/items/{item_id}";
       endpoint := get_item |};
    {| route_method := POST; route_path := "/items/";
       endpoint := post_item |} ].

Definition app : Request -> World -> Response * World := dispatch routes.

End App.
End V1.

(** ** Variant 2: [templates/python/fastapi/app/main.py] *)

Module V2.

(** [class Item(BaseModel)] *)
Record Item : Type := {
  name : string;
  description : option string
}.

(** [def read_root()] *)
Definition read_root (_ : unit) : json :=
  JObj {[ "Hello" := JStr "World" ]}.

(** [def read_item(item_id: int, q: str = None)] *)
Definition read_item (item_id : Z) (q : option string) : json :=
  JObj {[ "item_id" := JInt item_id; "q" := str_or_null q ]}.

(** [def create_item(item: Item)] *)
Definition create_item (item : Item) : Item := item.

(** [def healthz()] *)
Definition healthz (_ : unit) : json :=
  JObj {[ "status" := JStr "ok" ]}.

(** [def readyz()]: [start] is the first reading; the second reading is
    taken while the right-hand side of [elapsed_ms] is evaluated.  The
    difference and its product with [1000] are doubles.  [None] is the
    exception of [int] when the product is not finite. *)
Definition readyz (w : World) : option json * World :=
  let '(start, w1) := time_time w in
  let '(now, w2) := time_time w1 in
  match int_of_float (float_mul (float_sub now start) (float_of_Z 1000)) with
  | Some elapsed_ms =>
      (Some (JObj {[ "ready" := JBool true; "elapsed_ms" := JInt elapsed_ms ]}),
       w2)
  | None => (None, w2)
  end.

Section App.
Context `{Validators}.

Definition validate_name (fields : gmap string json)
  : list (list string) + string :=
  match fields !! "name" with
  | None => inl [["body"; "name"]]
  | Some v =>
      match well_formed_string v with
      | Some s => inr s
      | None =>
          match str_of_nonstring v with
          | Some s => inr s
          | None => inl [["body"; "name"]]
          end
      end
  end.

Definition validate_description (fields : gmap string json)
  : list (list string) + option string :=
  match fields !! "description" with
  | None => inr None
  | Some v =>
      match well_formed_string v with
      | Some s => inr (Some s)
      | None =>
          match optional_str_of_nonstring v with
          | Some d => inr d
          | None => inl [["body"; "description"]]
          end
      end
  end.

Definition Item_of_json (v : json) : list (list string) + Item :=
  match (match v with JObj fields => Some fields | _ => dict_of_nonobject v end) with
  | None => inl [["body"]]
  | Some fields =>
      match validate_name fields, validate_description fields with
      | inr n, inr d => inr {| name := n; description := d |}
      | inl e1, inl e2 => inl (e1 ++ e2)
      | inl e, inr _ => inl e
      | inr _, inl e => inl e
      end
  end.

Definition Item_to_json (item : Item) : json :=
  JObj {[ "name" := JStr (name item);
          "description" := str_or_null (description item) ]}.

Definition Item_response (item : Item) : Response :=
  if utf8_encodable (name item)
     && match description item with
        | Some d => utf8_encodable d
        | None => true
        end
  then Ok (Item_to_json item)
  else InternalServerError.

(** [@app.get("/")] *)
Definition get_root : Endpoint :=
  fun _ _ w => (Ok (read_root tt), w).

(** [@app.get("/items/{item_id}")] *)
Definition get_item : Endpoint :=
  fun params req w =>
    match params !! "item_id" ≫= int_of_path with
    | Some item_id => (Ok (read_item item_id (query req !! "q")), w)
    | None => (RequestValidationError [["path"; "item_id"]], w)
    end.

(** [@app.post("/items/")] *)
Definition post_item : Endpoint :=
  fun _ req w =>
    match body req with
    | NoBody | Decoded JNull => (RequestValidationError [["body"]], w)
    | Unreadable => (BadRequest, w)
    | InvalidJson pos => (JsonDecodeError pos, w)
    | Decoded v =>
        match Item_of_json v with
        | inr item => (Item_response (create_item item), w)
        | inl locs => (RequestValidationError locs, w)
        end
    end.

(** [@app.get("/healthz")] *)
Definition get_healthz : Endpoint :=
  fun _ _ w => (Ok (healthz tt), w).

(** [@app.get("/readyz")] *)
Definition get_readyz : Endpoint :=
  fun _ _ w =>
    match readyz w with
    | (Some content, w') => (Ok content, w')
    | (None, w') => (InternalServerError, w')
    end.

Definition routes : list Route :=
  [ {| route_method := GET; route_path := "/"; endpoint := get_root |};
    {| route_method := GET; route_path := "/items/{item_id}";
       endpoint := get_item |};
    {| route_method := POST; route_path := "/items/";
       endpoint := post_item |};
    {| route_method := GET; route_path := "/healthz";
       endpoint := get_healthz |};
    {| route_method := GET; route_path := "/readyz";
       endpoint := get_readyz |} ].

Definition app : Request -> World -> Response * World := dispatch routes.

End App.
End V2.

(** ** Instances of the library side

    They serve as concrete inputs.  [strict_validators] refuses every
    input that has not the JSON type of the annotation.
    [lenient_validators] differs in one point: a [null] given for a [str]
    field whose default is [None] is taken as [None].
    [coercing_validators] also turns an integer given for a [str] field
    into its decimal digits and lets a string with a surrogate pass. *)

Definition digit_of (c : ascii) : option Z :=
  let n := nat_of_ascii c in
  if (48 <=? n)%nat && (n <=? 57)%nat then Some (Z.of_nat (n - 48)) else None.

Fixpoint digits_value (acc : Z) (s : string) : option Z :=
  match s with
  | EmptyString => Some acc
  | String c rest =>
      match digit_of c with
      | Some d => digits_value (10 * acc + d) rest
      | None => None
      end
  end.

(** Decimal digits with an optional minus sign. *)
Definition decimal_int (s : string) : option Z :=
  match s with
  | EmptyString => None
  | String "-"%char EmptyString => None
  | String "-"%char rest => Z.opp <$> digits_value 0 rest
  | _ => digits_value 0 s
  end.

Definition strict_validators : Validators :=
  {| int_of_path := decimal_int;
     dict_of_nonobject := fun _ => None;
     str_of_nonstring := fun _ => None;
     optional_str_of_nonstring := fun _ => None |}.

Definition lenient_validators : Validators :=
  {| int_of_path := decimal_int;
     dict_of_nonobject := fun _ => None;
     str_of_nonstring := fun _ => None;
     optional_str_of_nonstring :=
       fun v => match v with JNull => Some None | _ => None end |}.


(** A clock that starts at [t0] seconds and advances by [2 ^ -22]
    seconds, about a quarter of a microsecond, per reading. *)
Definition ticking (t0 : Z) : World :=
  {| readings := fun n =>
       binary_normalize prec64 emax64 (t0 * 2 ^ 22 + Z.of_nat n) (-22) false;
     reads := 0 |}.

(** A clock that starts at 100 seconds and steps back by a second and a
    half at every reading. *)
Definition stepping_back : World :=
  {| readings := fun n =>
       binary_normalize prec64 emax64 (200 - 3 * Z.of_nat n) (-1) false;
     reads := 0 |}.

Definition request (m : Method) (p : string) : Request :=
  {| method := m; path := p; query := ∅; body := NoBody |}.


(** ** Vocabulary for statements about routing and request sequences *)

(** The paths [/items/<segment>] with one non-empty segment. *)
Definition item_path (p : string) : Prop :=
  ∃ seg, p = "/items/" +:+ seg ∧ seg ≠ "" ∧ has_slash seg = false.

(** The requests for which the decorators of variant 1 register a
    handler: GET [/], GET [/items/<segment>] and POST [/items/]. *)
Definition routed_V1 (req : Request) : Prop :=
  (method req = GET ∧ (path req = "/" ∨ item_path (path req)))
  ∨ (method req = POST ∧ path req = "/items/").

(** Variant 2 adds the two probes. *)
Definition routed_V2 (req : Request) : Prop :=
  routed_V1 req
  ∨ (method req = GET ∧ (path req = "/healthz" ∨ path req = "/readyz")).

Definition is_readyz (req : Request) : bool :=
  bool_decide (method req = GET ∧ path req = "/readyz").

(** The number of readiness probes in a sequence of requests. *)
Fixpoint probes (reqs : list Request) : nat :=
  match reqs with
  | [] => 0
  | req :: rest => (if is_readyz req then 1 else 0) + probes rest
  end.

(** The answer to a readiness probe as a function of the two readings:
    the first argument is the earlier one. *)
Definition readyz_answer (start now : spec_float) : Response :=
  match int_of_float (float_mul (float_sub now start) (float_of_Z 1000)) with
  | Some elapsed_ms =>
      Ok (JObj {[ "ready" := JBool true; "elapsed_ms" := JInt elapsed_ms ]})
  | None => InternalServerError
  end.

(** The world after [n] more readings of the clock. *)
Definition advance (n : nat) (w : World) : World :=
  {| readings := readings w; reads := n + reads w |}.

(** * Properties *)

(** ** Paths and routing *)

Lemma segments_nonempty (p : string) : segments p ≠ [].
Proof.
  destruct p as [|c rest]; simpl; [discriminate|].
  destruct (Ascii.eqb c "/"); [discriminate|].
  destruct (segments rest); discriminate.
Qed.

(** Splitting loses nothing: joining the segments gives the path back. *)
Lemma join_segments_segments (p : string) : join_segments (segments p) = p.
Proof.
  induction p as [|c rest IH]; simpl; [reflexivity|].
  pose proof (segments_nonempty rest) as Hne.
  destruct (Ascii.eqb_spec c "/") as [->|Hc].
  - destruct (segments rest) as [|s ss] eqn:E; [congruence|].
    simpl in *. by rewrite IH.
  - destruct (segments rest) as [|s ss] eqn:E; [congruence|].
    destruct ss as [|s' ss']; simpl in *; by rewrite <- IH.
Qed.

Lemma segments_inj (p1 p2 : string) : segments p1 = segments p2 → p1 = p2.
Proof.
  intros E. rewrite <- (join_segments_segments p1), E.
  apply join_segments_segments.
Qed.

Lemma segments_one (s : string) : has_slash s = false → segments s = [s].
Proof.
  induction s as [|c rest IH]; simpl; [reflexivity|].
  intros [Hc Hr]%orb_false_iff. rewrite Hc, (IH Hr). reflexivity.
Qed.

Lemma segments_items (seg : string) :
  has_slash seg = false →
  segments ("/items/" +:+ seg) = [""; "items"; seg].
Proof.
  intros Hs. simpl. change ("" +:+ seg) with seg.
  by rewrite (segments_one _ Hs).
Qed.

(** A pattern without parameters matches its own path only. *)
Lemma match_path_literal (pat segs : list string) (params : gmap string string) :
  Forall (λ p, param_name p = None) pat →
  match_path pat segs = Some params → segs = pat.
Proof.
  intros Hlit. revert segs.
  induction Hlit as [|p pat' Hp _ IH]; intros [|s segs']; simpl; try discriminate.
  - reflexivity.
  - rewrite Hp. destruct (decide (p = s)) as [->|]; [|discriminate].
    intros E. by rewrite (IH _ E).
Qed.

Lemma route_matches_literal (r : Route) (req : Request) (params : gmap string string) :
  Forall (λ p, param_name p = None) (segments (route_path r)) →
  route_matches r req = Some params →
  method req = route_method r ∧ path req = route_path r.
Proof.
  unfold route_matches. intros Hlit.
  destruct (decide (route_method r = method req)) as [Hm|]; [|discriminate].
  intros E. split; [done|].
  apply segments_inj. exact (match_path_literal _ _ _ Hlit E).
Qed.

Lemma match_path_item (seg : string) :
  seg ≠ "" → has_slash seg = false →
  match_path (segments "/items/{item_id}") (segments ("/items/" +:+ seg))
  = Some {[ "item_id" := seg ]}.
Proof.
  intros Hne Hs. rewrite (segments_items _ Hs).
  change (segments "/items/{item_id}") with [""; "items"; "{item_id}"].
  cbn [match_path].
  change (param_name "") with (@None string).
  change (param_name "items") with (@None string).
  change (param_name "{item_id}") with (Some "item_id").
  cbv iota beta.
  rewrite !decide_True by reflexivity.
  rewrite decide_False by done.
  reflexivity.
Qed.

Lemma match_path_root_item (seg : string) :
  has_slash seg = false →
  match_path (segments "/") (segments ("/items/" +:+ seg)) = None.
Proof. intros Hs. rewrite (segments_items _ Hs). reflexivity. Qed.

(** ** Doubles

    The rounding of a product, followed through the definitions of the
    Standard Library. *)

Section Doubles.
Local Open Scope Z_scope.


Lemma digits2_pos_upper (m : positive) : Zpos m < 2 ^ Zpos (digits2_pos m).
Proof.
  induction m as [m IH|m IH|]; simpl digits2_pos; [| |done].
  - rewrite Pos2Z.inj_succ, Z.pow_succ_r by lia. lia.
  - rewrite Pos2Z.inj_succ, Z.pow_succ_r by lia. lia.
Qed.

Lemma digits2_pos_lower (m : positive) : 2 ^ (Zpos (digits2_pos m) - 1) <= Zpos m.
Proof.
  induction m as [m IH|m IH|]; simpl digits2_pos; [| |done].
  - rewrite Pos2Z.inj_succ. replace (Z.succ (Z.pos (digits2_pos m)) - 1) with (Z.succ (Z.pos (digits2_pos m) - 1)) by lia.
    rewrite Z.pow_succ_r by lia. lia.
  - rewrite Pos2Z.inj_succ. replace (Z.succ (Z.pos (digits2_pos m)) - 1) with (Z.succ (Z.pos (digits2_pos m) - 1)) by lia.
    rewrite Z.pow_succ_r by lia. lia.
Qed.

Lemma Zdigits2_le (r k : Z) : 0 <= r -> 0 <= k -> r < 2 ^ k -> Zdigits2 r <= k.
Proof.
  intros Hr Hk Hlt. destruct r as [|m|m]; simpl; [lia| |lia].
  pose proof (digits2_pos_lower m) as Hlo.
  destruct (Z_lt_le_dec k (Zpos (digits2_pos m))) as [Hgt|]; [|lia].
  assert (2 ^ k <= 2 ^ (Z.pos (digits2_pos m) - 1)) by (apply Z.pow_le_mono_r; lia).
  lia.
Qed.

Lemma shr_m_shr_1 (mrs : shr_record) :
  0 <= shr_m mrs -> shr_m (shr_1 mrs) = shr_m mrs / 2.
Proof.
  destruct mrs as [m r s]. simpl. intros Hm.
  destruct m as [|[p|p|]|p]; cbn [shr_m]; try lia; try done.
  - apply Z.div_unique with 1; lia.
  - apply Z.div_unique with 0; lia.
Qed.

Lemma pow2_xO (p : positive) : 2 ^ Zpos p~0 = 2 ^ Zpos p * 2 ^ Zpos p.
Proof. rewrite <- Z.pow_add_r by lia. f_equal. lia. Qed.

Lemma pow2_xI (p : positive) : 2 ^ Zpos p~1 = 2 * (2 ^ Zpos p * 2 ^ Zpos p).
Proof.
  rewrite <- Z.pow_add_r, <- Z.pow_succ_r by lia. f_equal. lia.
Qed.

Lemma shr_m_iter_pos (p : positive) (mrs : shr_record) :
  0 <= shr_m mrs ->
  shr_m (SpecFloat.iter_pos shr_1 p mrs) = shr_m mrs / 2 ^ Zpos p.
Proof.
  assert (Hpow : forall q, 0 < 2 ^ Zpos q) by (intros; apply Z.pow_pos_nonneg; lia).
  revert mrs. induction p as [p IH|p IH|]; intros mrs Hm; simpl SpecFloat.iter_pos.
  - assert (H1 : 0 <= shr_m (shr_1 mrs)).
    { rewrite shr_m_shr_1 by done. apply Z.div_pos; lia. }
    assert (H2 : 0 <= shr_m (SpecFloat.iter_pos shr_1 p (shr_1 mrs))).
    { rewrite IH by done. apply Z.div_pos; [done|apply Hpow]. }
    rewrite IH, IH, shr_m_shr_1 by done.
    pose proof (Hpow p).
    rewrite !Z.div_div by lia. by rewrite pow2_xI.
  - assert (H2 : 0 <= shr_m (SpecFloat.iter_pos shr_1 p mrs)).
    { rewrite IH by done. apply Z.div_pos; [done|apply Hpow]. }
    rewrite IH, IH by done.
    pose proof (Hpow p).
    rewrite !Z.div_div by lia. by rewrite pow2_xO.
  - rewrite shr_m_shr_1 by done. done.
Qed.

Lemma shr_m_shr_record_of_loc (m : Z) (l : location) :
  shr_m (shr_record_of_loc m l) = m.
Proof. by destruct l as [|[]]. Qed.

(** The mantissa after the shift of [shr_fexp]. *)
Lemma shr_fexp_spec (m e : Z) (l : location) :
  0 <= m ->
  let n := fexp prec64 emax64 (Zdigits2 m + e) - e in
  shr_fexp prec64 emax64 m e l =
    (fst (shr_fexp prec64 emax64 m e l), if 0 <? n then e + n else e)
  /\ shr_m (fst (shr_fexp prec64 emax64 m e l))
     = (if 0 <? n then m / 2 ^ n else m)
  /\ (n <= 0 -> fst (shr_fexp prec64 emax64 m e l) = shr_record_of_loc m l).
Proof.
  intros Hm n. unfold shr_fexp. fold n. unfold shr.
  destruct n as [|p|p]; simpl; rewrite ?shr_m_shr_record_of_loc; try done.
  split; [done|]. split; [|lia].
  rewrite shr_m_iter_pos; by rewrite shr_m_shr_record_of_loc.
Qed.

Lemma round_nearest_even_bounds (m : Z) (l : location) :
  m <= round_nearest_even m l <= m + 1.
Proof.
  unfold round_nearest_even. destruct l as [|[]]; try lia.
  destruct (Z.even m); lia.
Qed.

Lemma fexp_nonpos (d : Z) : d <= 0 -> fexp prec64 emax64 d <= -53.
Proof. unfold fexp, emin, prec64, emax64. lia. Qed.

Lemma int_of_float_tiny (s : bool) (m e : Z) :
  0 <= m -> e < 0 -> m < 2 ^ (- e) ->
  int_of_float (match m with
                | Z0 => S754_zero s
                | Zpos p => if e <=? emax64 - prec64 then S754_finite s p e
                            else S754_infinity s
                | Zneg _ => S754_nan
                end) = Some 0.
Proof.
  intros Hm He Hlt. destruct m as [|p|p]; [done| |lia].
  replace (e <=? emax64 - prec64) with true
    by (symmetry; apply Z.leb_le; unfold emax64, prec64; lia).
  destruct e as [|k|k]; try lia. simpl.
  rewrite Z.shiftr_div_pow2 by lia.
  change (- Z.neg k) with (Z.pos k) in Hlt.
  rewrite Z.div_small by lia. by destruct s.
Qed.

(** A product below [1000 / 1024] rounds to a double below 1. *)
Lemma binary_round_aux_small (sx : bool) (mx ex : Z) :
  0 < mx -> 1024 * mx < 1000 * 2 ^ (- ex) ->
  int_of_float (binary_round_aux prec64 emax64 sx mx ex loc_Exact) = Some 0.
Proof.
  intros Hmx Hsmall.
  assert (Hex : ex < 0).
  { destruct (Z_lt_le_dec ex 0) as [|Hge]; [done|].
    destruct (Z.eq_dec ex 0) as [->|]; [simpl in Hsmall; lia|].
    rewrite Z.pow_neg_r in Hsmall by lia. lia. }
  assert (HK : 0 < 2 ^ (- ex)) by (apply Z.pow_pos_nonneg; lia).
  assert (Hd1 : Zdigits2 mx + ex <= 0).
  { pose proof (Zdigits2_le mx (- ex)). lia. }
  unfold binary_round_aux.
  destruct (shr_fexp_spec mx ex loc_Exact) as (E1 & M1 & N1); [lia|].
  rewrite E1. clear E1.
  set (n1 := fexp prec64 emax64 (Zdigits2 mx + ex) - ex) in *.
  set (mrs1 := fst (shr_fexp prec64 emax64 mx ex loc_Exact)) in *.
  set (e1 := if 0 <? n1 then ex + n1 else ex).
  set (r := round_nearest_even (shr_m mrs1) (loc_of_shr_record mrs1)).
  pose proof (round_nearest_even_bounds (shr_m mrs1) (loc_of_shr_record mrs1))
    as Hr. fold r in Hr.
  pose proof (fexp_nonpos _ Hd1) as Hf1.
  assert (HA : 0 <= r /\ e1 < 0 /\ r < 2 ^ (- e1)).
  { unfold e1. revert M1. destruct (Z.ltb_spec 0 n1) as [Hn|Hn]; intros M1;
      [rewrite M1 in Hr|].
    - assert (Hp : 0 < 2 ^ n1) by (apply Z.pow_pos_nonneg; lia).
      assert (He : ex + n1 <= -53) by (unfold n1; lia).
      assert (Hsplit : 2 ^ (- ex) = 2 ^ (- (ex + n1)) * 2 ^ n1).
      { rewrite <- Z.pow_add_r by lia. f_equal. lia. }
      assert (Hbig : 2 ^ 53 <= 2 ^ (- (ex + n1)))
        by (apply Z.pow_le_mono_r; lia).
      pose proof (Z.mul_div_le mx (2 ^ n1) Hp) as Hdiv.
      pose proof (Z.div_pos mx (2 ^ n1) ltac:(lia) Hp) as Hpos.
      assert (Hm1 : 1024 * (mx / 2 ^ n1) < 1000 * 2 ^ (- (ex + n1))).
      { apply (Z.mul_lt_mono_pos_r (2 ^ n1)); [done|]. nia. }
      change (2 ^ 53) with 9007199254740992 in Hbig. lia.
    - unfold r. rewrite (N1 Hn). simpl. lia. }
  destruct HA as (Hr0 & He1 & Hr1). fold e1. clearbody r e1. clear Hr M1 N1.
  destruct (shr_fexp_spec r e1 loc_Exact) as (E2 & M2 & _); [lia|].
  rewrite E2. clear E2.
  set (n2 := fexp prec64 emax64 (Zdigits2 r + e1) - e1) in *.
  assert (Hd2 : Zdigits2 r + e1 <= 0).
  { pose proof (Zdigits2_le r (- e1)). lia. }
  pose proof (fexp_nonpos _ Hd2) as Hf2.
  apply int_of_float_tiny.
  - rewrite M2. destruct (Z.ltb_spec 0 n2); [|done].
    apply Z.div_pos; [done|]. apply Z.pow_pos_nonneg; lia.
  - destruct (Z.ltb_spec 0 n2); unfold n2 in *; lia.
  - rewrite M2. destruct (Z.ltb_spec 0 n2) as [Hn|Hn]; [|done].
    assert (Hp : 0 < 2 ^ n2) by (apply Z.pow_pos_nonneg; lia).
    apply Z.div_lt_upper_bound; [done|].
    rewrite <- Z.pow_add_r by (unfold n2 in *; lia).
    replace (n2 + - (e1 + n2)) with (- e1) by lia. done.
Qed.

Lemma float_mul_1000_small (d : spec_float) :
  magnitude_below (-10) d = true ->
  int_of_float (float_mul d (float_of_Z 1000)) = Some 0.
Proof.
  change (float_of_Z 1000) with (S754_finite false 8796093022208000 (-43)).
  destruct d as [s|s| |s m e]; try done.
  unfold magnitude_below. intros Hd%Z.leb_le.
  unfold float_mul, SFmul.
  apply binary_round_aux_small; [done|].
  pose proof (digits2_pos_upper m) as Hm.
  assert (Hpow : 2 ^ (Zpos (digits2_pos m) + 10) <= 2 ^ (- e))
    by (apply Z.pow_le_mono_r; lia).
  rewrite Z.pow_add_r in Hpow by lia.
  replace (- (e + -43)) with (- e + 43) by lia.
  rewrite Z.pow_add_r by lia.
  rewrite Pos2Z.inj_mul.
  change (Z.pos 8796093022208000) with (1000 * 2 ^ 43).
  change (2 ^ 10) with 1024 in Hpow.
  assert (0 < 2 ^ 43) by done.
  nia.
Qed.

(** A finite double minus itself is zero. *)
Lemma float_sub_diag (x : spec_float) :
  is_finite x = true -> float_sub x x = S754_zero false.
Proof.
  destruct x as [[]|s| |s m e]; try done. intros _.
  unfold float_sub, SFsub. by rewrite Z.sub_diag.
Qed.

End Doubles.

(** ** The service *)

Section Service.
Context `{Validators}.

Implicit Types (req : Request) (w : World) (q : gmap string string)
  (b : Payload) (seg : string).

(** *** The two files declare the same model and the same bindings *)

Lemma validate_name_agree (fields : gmap string json) :
  V1.validate_name fields = V2.validate_name fields.
Proof. reflexivity. Qed.

Lemma validate_description_agree (fields : gmap string json) :
  V1.validate_description fields = V2.validate_description fields.
Proof. reflexivity. Qed.


Lemma get_root_agree params req w :
  V1.get_root params req w = V2.get_root params req w.
Proof. reflexivity. Qed.

Lemma get_item_agree params req w :
  V1.get_item params req w = V2.get_item params req w.
Proof. reflexivity. Qed.

Lemma Item_response_agree (v : json) :
  sum_map id V1.Item_response (V1.Item_of_json v)
  = sum_map id V2.Item_response (V2.Item_of_json v).
Proof.
  unfold V1.Item_of_json, V2.Item_of_json.
  destruct (match v with JObj fields => Some fields | _ => dict_of_nonobject v end)
    as [fields|]; [|reflexivity].
  change (V2.validate_name fields) with (V1.validate_name fields).
  change (V2.validate_description fields) with (V1.validate_description fields).
  destruct (V1.validate_name fields), (V1.validate_description fields);
    reflexivity.
Qed.

Lemma post_item_agree params req w :
  V1.post_item params req w = V2.post_item params req w.
Proof.
  unfold V1.post_item, V2.post_item.
  destruct (body req) as [| |pos|v]; try reflexivity.
  pose proof (Item_response_agree v) as E.
  destruct v; try reflexivity;
    destruct (V1.Item_of_json _), (V2.Item_of_json _); simpl in E;
    unfold V1.create_item, V2.create_item; congruence.
Qed.

(** *** Which route serves which request *)

Lemma V1_app_item seg q b w :
  seg ≠ "" → has_slash seg = false →
  let req := {| method := GET; path := "/items/" +:+ seg;
                query := q; body := b |} in
  V1.app req w = V1.get_item {[ "item_id" := seg ]} req w.
Proof.
  intros Hne Hs. unfold V1.app, V1.routes.
  cbn [dispatch]. unfold route_matches.
  cbn [route_method route_path endpoint method path].
  rewrite !decide_True by reflexivity.
  by rewrite (match_path_root_item _ Hs), (match_path_item _ Hne Hs).
Qed.

Lemma V2_app_item seg q b w :
  seg ≠ "" → has_slash seg = false →
  let req := {| method := GET; path := "/items/" +:+ seg;
                query := q; body := b |} in
  V2.app req w = V2.get_item {[ "item_id" := seg ]} req w.
Proof.
  intros Hne Hs. unfold V2.app, V2.routes.
  cbn [dispatch]. unfold route_matches.
  cbn [route_method route_path endpoint method path].
  rewrite !decide_True by reflexivity.
  by rewrite (match_path_root_item _ Hs), (match_path_item _ Hne Hs).
Qed.



Lemma get_item_bound seg req w :
  V1.get_item {[ "item_id" := seg ]} req w =
  match int_of_path seg with
  | Some item_id => (Ok (V1.read_item item_id (query req !! "q")), w)
  | None => (RequestValidationError [["path"; "item_id"]], w)
  end.
Proof. unfold V1.get_item. by rewrite lookup_singleton_eq. Qed.

(** *** Handlers that leave the world alone *)

(** Case analysis on the next route of the table that is tried. *)
Ltac route_case req E :=
  match goal with
  | |- context [route_matches ?r req] =>
      destruct (route_matches r req) as [?params|] eqn:E
  end.

Lemma get_item_pure params req :
  ∃ resp, ∀ w, V1.get_item params req w = (resp, w).
Proof.
  unfold V1.get_item.
  destruct (params !! "item_id" ≫= int_of_path); eexists; reflexivity.
Qed.

Lemma post_item_pure params req :
  ∃ resp, ∀ w, V1.post_item params req w = (resp, w).
Proof.
  unfold V1.post_item.
  destruct (body req) as [| |pos|v]; try (eexists; reflexivity).
  destruct v; try (eexists; reflexivity);
    destruct (V1.Item_of_json _); eexists; reflexivity.
Qed.

Lemma V1_app_pure req : ∃ resp, ∀ w, V1.app req w = (resp, w).
Proof.
  unfold V1.app, V1.routes. cbn [dispatch endpoint].
  route_case req E1; [eexists; reflexivity|].
  route_case req E2; [apply get_item_pure|].
  route_case req E3; [apply post_item_pure|].
  eexists; reflexivity.
Qed.

Lemma readyz_route_only req params :
  route_matches {| route_method := GET; route_path := "/readyz";
                   endpoint := V2.get_readyz |} req = Some params →
  method req = GET ∧ path req = "/readyz".
Proof.
  apply route_matches_literal. simpl. repeat constructor.
Qed.

Lemma healthz_route_only req params :
  route_matches {| route_method := GET; route_path := "/healthz";
                   endpoint := V2.get_healthz |} req = Some params →
  method req = GET ∧ path req = "/healthz".
Proof.
  apply route_matches_literal. simpl. repeat constructor.
Qed.

Lemma V2_app_pure req :
  ¬ (method req = GET ∧ path req = "/readyz") →
  ∃ resp, ∀ w, V2.app req w = (resp, w).
Proof.
  intros Hnot. unfold V2.app, V2.routes. cbn [dispatch endpoint].
  route_case req E1; [eexists; reflexivity|].
  route_case req E2.
  { setoid_rewrite <- get_item_agree. apply get_item_pure. }
  route_case req E3.
  { setoid_rewrite <- post_item_agree. apply post_item_pure. }
  route_case req E4; [eexists; reflexivity|].
  route_case req E5; [|eexists; reflexivity].
  destruct Hnot. by apply readyz_route_only in E5.
Qed.

Lemma V2_app_V1_app req w :
  ¬ (method req = GET ∧ (path req = "/healthz" ∨ path req = "/readyz")) →
  V2.app req w = V1.app req w.
Proof.
  intros Hnot. unfold V1.app, V2.app, V1.routes, V2.routes.
  cbn [dispatch endpoint].
  change V1.get_root with V2.get_root.
  change V1.get_item with V2.get_item.
  change (route_matches {| route_method := POST; route_path := "/items/";
                           endpoint := V1.post_item |} req)
    with (route_matches {| route_method := POST; route_path := "/items/";
                           endpoint := V2.post_item |} req).
  route_case req E1; [reflexivity|].
  route_case req E2; [reflexivity|].
  route_case req E3; [symmetry; apply post_item_agree|].
  route_case req E4.
  { destruct Hnot. apply healthz_route_only in E4. tauto. }
  route_case req E5; [|reflexivity].
  destruct Hnot. apply readyz_route_only in E5. tauto.
Qed.

End Service.


(** ** The clock along a sequence of requests *)

Lemma advance_0 (w : World) : advance 0 w = w.
Proof. by destruct w. Qed.

Lemma advance_advance (a b : nat) (w : World) :
  advance a (advance b w) = advance (a + b) w.
Proof. unfold advance. simpl. f_equal. lia. Qed.

Lemma serve_cons (app : Request → World → Response * World)
    (req : Request) (rest : list Request) (w : World) :
  serve app (req :: rest) w
  = (fst (app req w) :: fst (serve app rest (snd (app req w))),
     snd (serve app rest (snd (app req w)))).
Proof.
  simpl. destruct (app req w) as [resp w1]. simpl.
  by destruct (serve app rest w1).
Qed.

Section Probes.
Context `{Validators}.

Implicit Types (req : Request) (reqs : list Request) (w : World).

Lemma V2_app_readyz req w :
  is_readyz req = true →
  V2.app req w
  = (readyz_answer (readings w (reads w)) (readings w (S (reads w))),
     advance 2 w).
Proof.
  unfold is_readyz. intros [Hm Hp]%bool_decide_eq_true.
  destruct req as [m p q b]. simpl in *. subst.
  change (V2.app {| method := GET; path := "/readyz"; query := q; body := b |} w)
    with (V2.get_readyz ∅
            {| method := GET; path := "/readyz"; query := q; body := b |} w).
  unfold V2.get_readyz, V2.readyz, readyz_answer, time_time. cbn [readings reads].
  by destruct (int_of_float _).
Qed.

Lemma V2_app_other req :
  is_readyz req = false → ∃ resp, ∀ w, V2.app req w = (resp, w).
Proof.
  unfold is_readyz. intros Hp%bool_decide_eq_false. by apply V2_app_pure.
Qed.

(** What one request does to the world: a readiness probe reads the clock
    twice, every other request leaves the world alone. *)
Lemma V2_app_world req w :
  snd (V2.app req w) = advance (if is_readyz req then 2 else 0) w.
Proof.
  destruct (is_readyz req) eqn:E.
  - by rewrite V2_app_readyz.
  - destruct (V2_app_other req E) as [resp Er]. by rewrite Er, advance_0.
Qed.

(** The answer depends on the world through the next two readings only. *)
Lemma V2_app_two_readings req w w' :
  readings w (reads w) = readings w' (reads w') →
  readings w (S (reads w)) = readings w' (S (reads w')) →
  fst (V2.app req w) = fst (V2.app req w').
Proof.
  intros E1 E2. destruct (is_readyz req) eqn:E.
  - rewrite !V2_app_readyz by done. cbn [fst]. by rewrite E1, E2.
  - destruct (V2_app_other req E) as [resp Er]. by rewrite !Er.
Qed.

Lemma V2_serve_world reqs w :
  snd (serve V2.app reqs w) = advance (2 * probes reqs) w.
Proof.
  revert w. induction reqs as [|r rest IH]; intros w.
  - by rewrite advance_0.
  - rewrite serve_cons, V2_app_world. cbn [snd].
    rewrite IH, advance_advance. f_equal. simpl.
    destruct (is_readyz r); lia.
Qed.

Lemma V2_serve_lookup reqs w i req :
  reqs !! i = Some req →
  fst (serve V2.app reqs w) !! i
  = Some (fst (V2.app req (advance (2 * probes (take i reqs)) w))).
Proof.
  revert w i. induction reqs as [|r rest IH]; intros w i Hreq; [done|].
  rewrite serve_cons, V2_app_world. cbn [fst].
  destruct i as [|i]; simpl in Hreq.
  - injection Hreq as <-. simpl. by rewrite advance_0.
  - etrans; [exact (IH _ _ Hreq)|]. rewrite advance_advance.
    do 3 f_equal. simpl. f_equal. destruct (is_readyz r); lia.
Qed.

Lemma V1_serve_world reqs w : snd (serve V1.app reqs w) = w.
Proof.
  revert w. induction reqs as [|r rest IH]; intros w; [done|].
  rewrite serve_cons. destruct (V1_app_pure r) as [resp E].
  rewrite !E. cbn [snd]. apply IH.
Qed.

End Probes.

(** ** What each endpoint answers *)

Section Endpoints.
Context `{Validators}.

Implicit Types (req : Request) (w : World) (q : gmap string string)
  (b : Payload) (seg : string).

(** C7: in both variants, GET [/] answers the constant object
    [{"Hello": "World"}], whatever the query, the body and the world the
    request meets (so also after any earlier calls), and leaves the world
    as it was. *)
Theorem read_root_constant q b w :
  let req := {| method := GET; path := "/"; query := q; body := b |} in
  V1.app req w = (Ok (JObj {[ "Hello" := JStr "World" ]}), w) ∧
  V2.app req w = (Ok (JObj {[ "Hello" := JStr "World" ]}), w).
Proof. split; reflexivity. Qed.

(** C8: GET [/healthz] answers the constant object [{"status": "ok"}] in
    variant 2, whatever the query, the body and the world, and leaves the
    world as it was; variant 1 has no such route. *)
Theorem healthz_constant q b w :
  let req := {| method := GET; path := "/healthz"; query := q; body := b |} in
  V2.app req w = (Ok (JObj {[ "status" := JStr "ok" ]}), w) ∧
  V1.app req w = (NoRoute, w).
Proof. split; reflexivity. Qed.

(** C1 (as amended): GET [/readyz] of variant 2 reads the clock twice, one
    reading right after the other inside the handler, and answers from
    these two readings alone: [ready] true and [elapsed_ms] the integer
    part of the double product of their double difference and 1000 (or
    the server error of [int] when that product is not finite).  Hence
    [elapsed_ms] is 0 whenever the difference of the two readings is
    below [2 ^ -10] seconds in magnitude, in particular when the two
    readings are the same finite value, and the answer is the same in
    every world that shows the same two readings: nothing that happened
    to the request before the handler ran enters it. *)
Theorem readyz_elapsed_between_consecutive_readings q b w :
  let req := {| method := GET; path := "/readyz"; query := q; body := b |} in
  let start := readings w (reads w) in
  let now := readings w (S (reads w)) in
  let product := float_mul (float_sub now start) (float_of_Z 1000) in
  let zero := Ok (JObj {[ "ready" := JBool true; "elapsed_ms" := JInt 0 ]}) in
  V2.app req w =
    (match int_of_float product with
     | Some elapsed_ms =>
         Ok (JObj {[ "ready" := JBool true; "elapsed_ms" := JInt elapsed_ms ]})
     | None => InternalServerError
     end,
     {| readings := readings w; reads := S (S (reads w)) |})
  ∧ (magnitude_below (-10) (float_sub now start) = true →
       fst (V2.app req w) = zero)
  ∧ (now = start → is_finite start = true → fst (V2.app req w) = zero)
  ∧ (∀ w', readings w' (reads w') = start →
           readings w' (S (reads w')) = now →
           fst (V2.app req w') = fst (V2.app req w)).
Proof.
  intros req start now product zero.
  assert (Happ : ∀ w0, V2.app req w0 =
    (readyz_answer (readings w0 (reads w0)) (readings w0 (S (reads w0))),
     advance 2 w0)) by (intros w0; by apply V2_app_readyz).
  assert (Hsmall : magnitude_below (-10) (float_sub now start) = true →
                   fst (V2.app req w) = zero).
  { intros Hd. rewrite Happ. cbn [fst]. unfold readyz_answer.
    fold start now. by rewrite (float_mul_1000_small _ Hd). }
  split; [exact (Happ w)|]. split; [exact Hsmall|]. split.
  - intros -> Hfin. apply Hsmall. by rewrite float_sub_diag.
  - intros w' E1 E2. rewrite !Happ. cbn [fst]. by rewrite E1, E2.
Qed.

(** C2: in both variants, GET [/items/{item_id}], for a path segment that
    coerces to the integer [item_id], answers the object with [item_id]
    under ["item_id"] and the query parameter [q] under ["q"]; ["q"] is
    null exactly when the query has no [q], and is the supplied string
    otherwise. *)
Theorem read_item_echoes (item_id : Z) seg q b w :
  seg ≠ "" → has_slash seg = false → int_of_path seg = Some item_id →
  let req := {| method := GET; path := "/items/" +:+ seg;
                query := q; body := b |} in
  let content :=
    JObj {[ "item_id" := JInt item_id; "q" := str_or_null (q !! "q") ]} in
  V1.app req w = (Ok content, w)
  ∧ V2.app req w = (Ok content, w)
  ∧ member "item_id" content = Some (JInt item_id)
  ∧ (member "q" content = Some JNull ↔ q !! "q" = None)
  ∧ (∀ s, member "q" content = Some (JStr s) ↔ q !! "q" = Some s).
Proof.
  intros Hne Hs Hint req content.
  assert (Hq : member "q" content = Some (str_or_null (q !! "q"))).
  { unfold content, member.
    rewrite lookup_insert_ne by done. apply lookup_singleton_eq. }
  split; [|split; [|split; [|split]]].
  - unfold req. rewrite (V1_app_item _ _ _ _ Hne Hs).
    by rewrite get_item_bound, Hint.
  - unfold req. rewrite (V2_app_item _ _ _ _ Hne Hs).
    change V2.get_item with V1.get_item.
    by rewrite get_item_bound, Hint.
  - unfold content, member. apply lookup_insert_eq.
  - rewrite Hq. destruct (q !! "q"); simpl; split; congruence.
  - intros s. rewrite Hq. destruct (q !! "q"); simpl; split; congruence.
Qed.

(** C5: in both variants, GET [/items/{item_id}] with a path segment that
    does not coerce to an integer is answered by the framework's
    validation error for the path parameter [item_id], which is raised
    while the arguments are built, before [read_item] is called; with a
    segment that coerces to an integer, [read_item] is called on it and
    its return value is the answer. *)
Theorem read_item_path_coercion seg q b w :
  seg ≠ "" → has_slash seg = false →
  let req := {| method := GET; path := "/items/" +:+ seg;
                query := q; body := b |} in
  (int_of_path seg = None →
     V1.app req w = (RequestValidationError [["path"; "item_id"]], w) ∧
     V2.app req w = (RequestValidationError [["path"; "item_id"]], w))
  ∧ (∀ item_id, int_of_path seg = Some item_id →
     V1.app req w = (Ok (V1.read_item item_id (q !! "q")), w) ∧
     V2.app req w = (Ok (V2.read_item item_id (q !! "q")), w)).
Proof.
  intros Hne Hs req. unfold req.
  rewrite (V1_app_item _ _ _ _ Hne Hs), (V2_app_item _ _ _ _ Hne Hs).
  change V2.get_item with V1.get_item. rewrite get_item_bound.
  split; [intros -> | intros item_id ->]; split; reflexivity.
Qed.




(** C9: no handler keeps state between calls.  A request to GET [/], GET
    [/items/<segment>], POST [/items/] or GET [/healthz] is answered
    without reading or writing the world: the answer is the same in any
    two worlds, the world is returned as it was found, and the answer is
    the same after any sequence of earlier requests, to any endpoints, as
    before it.  For a request to any of the five registered operations,
    the readiness probe included, the answer is one function of the two
    clock readings that follow the call, whatever registered operations
    were served before; earlier calls do not change what the clock
    shows, they only take readings from it. *)
Theorem handlers_share_no_state req :
  (routed_V1 req ∨ (method req = GET ∧ path req = "/healthz") →
     (∀ w1 w2, fst (V1.app req w1) = fst (V1.app req w2)
               ∧ fst (V2.app req w1) = fst (V2.app req w2))
     ∧ (∀ w, snd (V1.app req w) = w ∧ snd (V2.app req w) = w)
     ∧ (∀ before w,
          fst (V1.app req (snd (serve V1.app before w))) = fst (V1.app req w)
          ∧ fst (V2.app req (snd (serve V2.app before w)))
            = fst (V2.app req w)))
  ∧ (routed_V2 req →
     ∃ answer : spec_float → spec_float → Response,
       ∀ before w, Forall routed_V2 before →
         let w' := snd (serve V2.app before w) in
         readings w' = readings w
         ∧ fst (V2.app req w')
           = answer (readings w (reads w')) (readings w (S (reads w')))).
Proof.
  split.
  - intros Hr.
    assert (Hnot : ¬ (method req = GET ∧ path req = "/readyz")).
    { destruct req as [m p q b]. cbn [method path] in *. intros [-> ->].
      destruct Hr as [[[_ [Hr | (seg & Hr & _)]] | [Hr _]] | [_ Hr]];
        discriminate Hr. }
    destruct (V1_app_pure req) as [r1 E1].
    destruct (V2_app_pure req Hnot) as [r2 E2].
    split; [|split].
    + intros w1 w2. by rewrite !E1, !E2.
    + intros w. by rewrite E1, E2.
    + intros before w. by rewrite !E1, !E2.
  - intros _.
    exists (λ t1 t2,
      fst (V2.app req {| readings := λ n, match n with 0 => t1 | S _ => t2 end;
                         reads := 0 |})).
    intros before w _ w'. unfold w'. rewrite V2_serve_world. split; [done|].
    by apply V2_app_two_readings.
Qed.

End Endpoints.

(** The clock steps back by a second and a half between the two
    readings: [elapsed_ms] is -1500. *)
Lemma readyz_elapsed_after_clock_step :
  fst (@V2.app strict_validators (request GET "/readyz") stepping_back)
  = Ok (JObj {[ "ready" := JBool true; "elapsed_ms" := JInt (-1500) ]}).
Proof. reflexivity. Qed.

(** Readings [2 ^ -22] seconds apart, five seconds into the clock:
    [elapsed_ms] is 0. *)
Lemma readyz_elapsed_witness :
  fst (@V2.app strict_validators (request GET "/readyz") (ticking 5))
  = Ok (JObj {[ "ready" := JBool true; "elapsed_ms" := JInt 0 ]}).
Proof.
  destruct (@readyz_elapsed_between_consecutive_readings strict_validators
              ∅ NoBody (ticking 5)) as (_ & Hsmall & _).
  apply Hsmall. reflexivity.
Defined.
(** GET [/items/42], with [q=foo] and without a query. *)
Lemma read_item_echoes_witness :
  @V1.app strict_validators
     {| method := GET; path := "/items/42"; query := {[ "q" := "foo" ]};
        body := NoBody |} (ticking 0)
  = (Ok (JObj {[ "item_id" := JInt 42; "q" := JStr "foo" ]}), ticking 0)
  ∧ @V2.app strict_validators (request GET "/items/42") (ticking 0)
  = (Ok (JObj {[ "item_id" := JInt 42; "q" := JNull ]}), ticking 0).
Proof.
  split.
  - destruct (@read_item_echoes strict_validators 42 "42" {[ "q" := "foo" ]}
                NoBody (ticking 0)) as (H1 & _);
      [discriminate | reflexivity | reflexivity | exact H1].
  - destruct (@read_item_echoes strict_validators 42 "42" ∅
                NoBody (ticking 0)) as (_ & H2 & _);
      [discriminate | reflexivity | reflexivity | exact H2].
Defined.

(** GET [/items/4x] is refused; GET [/items/-17] reaches the handler. *)
Lemma read_item_path_coercion_witness :
  @V1.app strict_validators (request GET "/items/4x") (ticking 0)
  = (RequestValidationError [["path"; "item_id"]], ticking 0)
  ∧ @V2.app strict_validators (request GET "/items/-17") (ticking 0)
  = (Ok (V2.read_item (-17) None), ticking 0).
Proof.
  split.
  - destruct (@read_item_path_coercion strict_validators "4x" ∅ NoBody
                (ticking 0)) as (Hbad & _); [discriminate | reflexivity |].
    destruct Hbad as (H1 & _); [reflexivity | exact H1].
  - destruct (@read_item_path_coercion strict_validators "-17" ∅ NoBody
                (ticking 0)) as (_ & Hgood); [discriminate | reflexivity |].
    destruct (Hgood (-17)%Z) as (_ & H2); [reflexivity | exact H2].
Defined.







(** GET [/items/42] after a readiness probe and a creation; and the
    clock after a readiness probe. *)
Lemma handlers_share_no_state_witness :
  fst (@V2.app strict_validators (request GET "/items/42")
         (snd (serve (@V2.app strict_validators)
                 [ request GET "/readyz";
                   {| method := POST; path := "/items/"; query := ∅;
                      body := Decoded (JObj {[ "name" := JStr "pen" ]}) |} ]
                 (ticking 0))))
  = fst (@V2.app strict_validators (request GET "/items/42") (ticking 0))
  ∧ readings (snd (serve (@V2.app strict_validators)
                     [request GET "/readyz"] (ticking 0)))
    = readings (ticking 0).
Proof.
  split.
  - destruct (@handlers_share_no_state strict_validators
                (request GET "/items/42")) as (Hstateless & _).
    destruct Hstateless as (_ & _ & Hafter).
    + left. left. split; [reflexivity|]. right. exists "42". by repeat split.
    + apply Hafter.
  - destruct (@handlers_share_no_state strict_validators
                (request GET "/readyz")) as (_ & Hany).
    destruct Hany as (answer & Hanswer).
    + right. split; [reflexivity|]. by right.
    + destruct (Hanswer [request GET "/readyz"] (ticking 0)) as (Hclock & _).
      * apply Forall_cons_2; [|apply Forall_nil_2].
        right. split; [reflexivity|]. by right.
      * exact Hclock.
Defined.

(** ** A [description] that is given as [null]

    The files do not settle what becomes of a body whose [description] is
    an explicit [null]: the field is annotated [str], [null] is not a
    string, and the answer is that of the validation library.  Both
    outcomes occur among the instances of [Validators]. *)

Example null_description_strict :
  fst (@V2.app strict_validators
         {| method := POST; path := "/items/"; query := ∅;
            body := Decoded (JObj {[ "name" := JStr "pen";
                                     "description" := JNull ]}) |}
         (ticking 0))
  = RequestValidationError [["body"; "description"]].
Proof. reflexivity. Qed.

Example null_description_lenient :
  fst (@V2.app lenient_validators
         {| method := POST; path := "/items/"; query := ∅;
            body := Decoded (JObj {[ "name" := JStr "pen";
                                     "description" := JNull ]}) |}
         (ticking 0))
  = Ok (JObj {[ "name" := JStr "pen"; "description" := JNull ]}).
Proof. reflexivity. Qed.

(** * Further properties of the two files *)

(** ** The route tables *)








Section Routing.
Context `{Validators}.

Implicit Types (req : Request) (w : World).

(** Case analysis on the next route of a table that is tried. *)
Ltac next_route req E :=
  match goal with
  | |- context [route_matches ?r req] =>
      destruct (route_matches r req) as [?params|] eqn:E
  end.






End Routing.



(** ** Sequences of requests *)

Section Sequences.
Context `{Validators}.

Implicit Types (req : Request) (reqs : list Request) (w : World).

(** X4: serving a sequence of requests to the five registered operations
    of variant 2 reads the clock exactly twice per GET [/readyz] and
    changes nothing else; and the answer to each request of the sequence
    is the answer it would get on its own after two readings per probe
    that came before it.  Earlier requests have no other effect on later
    ones. *)
Theorem serve_reads_clock_twice_per_probe reqs w :
  Forall routed_V2 reqs →
  snd (serve V2.app reqs w) = advance (2 * probes reqs) w
  ∧ ∀ i req, reqs !! i = Some req →
      fst (serve V2.app reqs w) !! i
      = Some (fst (V2.app req (advance (2 * probes (take i reqs)) w))).
Proof.
  intros _.
  split; [apply V2_serve_world | intros i req; apply V2_serve_lookup].
Qed.

(** X5: adding the probes changes nothing for the other endpoints, also
    when probes are interleaved with other requests: in a sequence of
    requests to the registered operations served by variant 2, every GET
    [/], GET [/items/<segment>] and POST [/items/] gets the answer that
    variant 1 gives it on its own. *)
Theorem probes_do_not_disturb reqs w i req :
  Forall routed_V2 reqs →
  reqs !! i = Some req →
  routed_V1 req →
  fst (serve V2.app reqs w) !! i = Some (fst (V1.app req w)).
Proof.
  intros _ Hreq Hr. rewrite (V2_serve_lookup _ _ _ _ Hreq).
  rewrite V2_app_V1_app.
  - destruct (V1_app_pure req) as [resp E]. by rewrite !E.
  - destruct req as [m p q b]. cbn [method path] in *.
    intros [-> [-> | ->]];
      destruct Hr as [[_ [Hr | (seg & Hr & _)]] | [Hr _]]; discriminate Hr.
Qed.

End Sequences.

(** Three requests, the second a readiness probe: the third is answered
    as on its own two readings later. *)
Lemma serve_reads_clock_witness :
  fst (serve (@V2.app strict_validators)
         [request GET "/"; request GET "/readyz"; request GET "/readyz"]
         (ticking 0)) !! 2
  = Some (fst (@V2.app strict_validators (request GET "/readyz")
                 (advance 2 (ticking 0)))).
Proof.
  destruct (@serve_reads_clock_twice_per_probe strict_validators
              [request GET "/"; request GET "/readyz"; request GET "/readyz"]
              (ticking 0)) as [_ Hi].
  - apply Forall_cons_2; [|apply Forall_cons_2; [|apply Forall_cons_2;
      [|apply Forall_nil_2]]].
    + left. left. split; [reflexivity|]. by left.
    + right. split; [reflexivity|]. by right.
    + right. split; [reflexivity|]. by right.
  - apply (Hi 2 (request GET "/readyz")). reflexivity.
Defined.

(** A creation between two readiness probes. *)
Lemma probes_do_not_disturb_witness :
  fst (serve (@V2.app strict_validators)
         [ request GET "/readyz";
           {| method := POST; path := "/items/"; query := ∅;
              body := Decoded (JObj {[ "name" := JStr "pen" ]}) |};
           request GET "/readyz" ]
         (ticking 0)) !! 1
  = Some (fst (@V1.app strict_validators
                 {| method := POST; path := "/items/"; query := ∅;
                    body := Decoded (JObj {[ "name" := JStr "pen" ]}) |}
                 (ticking 0))).
Proof.
  apply (@probes_do_not_disturb strict_validators).
  - apply Forall_cons_2; [|apply Forall_cons_2; [|apply Forall_cons_2;
      [|apply Forall_nil_2]]].
    + right. split; [reflexivity|]. by right.
    + left. right. by split.
    + right. split; [reflexivity|]. by right.
  - reflexivity.
  - right. by split.
Defined.
